(** * pojopoly: the dispatch registry and its resolver

    A shallow embedding of the library's core (the module that exports
    [ImplBase], [generateRegisterImpl] and [getImpl]) together with the
    properties of registration and resolution.

    The JavaScript host is modelled only as far as the three functions use
    it: symbols, strings and numbers as [Map] keys, truthiness, property
    reads on plain records, [Map] objects held by reference, and thrown
    exceptions.  The argument [obj] of [getImpl] is a reference to a plain
    record, read through its own properties and those it inherits from
    [Object.prototype]; implementation classes extend [ImplBase] with a
    static [subtypeId] and methods, and keep its constructor. *)

From stdpp Require Import gmap strings list fin_maps pretty.

Open Scope string_scope.

(** ** Host values *)

(** [type ProtocolKey = symbol].  A symbol is an identity plus the description
    it was created with; two symbols made with the same description differ in
    [sym_id]. *)
Record Symbol := mkSymbol { sym_id : positive; description : string }.

#[global] Instance Symbol_eq_dec : EqDecision Symbol.
Proof. solve_decision. Defined.

#[global] Instance Symbol_countable : Countable Symbol.
Proof.
  apply (inj_countable' (fun s => (sym_id s, description s))
                        (fun p => mkSymbol (fst p) (snd p))).
  by intros [].
Defined.

(** [Symbol.prototype.toString]. *)
Definition Symbol_toString (s : Symbol) : string :=
  "Symbol(" +:+ description s +:+ ")".

(** A JavaScript number.  A finite non-zero double is written
    [(-1)^negative * mantissa * 2^exponent] with [mantissa] odd, the one such
    writing of its value, so that structural equality is equality of
    values. *)
Inductive Number :=
| NaN
| Infinity (negative : bool)
| Zero (negative : bool)
| Finite (negative : bool) (mantissa : positive) (exponent : Z).

#[global] Instance Number_eq_dec : EqDecision Number.
Proof. solve_decision. Defined.

#[global] Instance Number_countable : Countable Number.
Proof.
  apply (inj_countable'
    (fun n => match n with
              | NaN => inl tt
              | Infinity s => inr (inl s)
              | Zero s => inr (inr (inl s))
              | Finite s m e => inr (inr (inr (s, m, e)))
              end)
    (fun c => match c with
              | inl _ => NaN
              | inr (inl s) => Infinity s
              | inr (inr (inl s)) => Zero s
              | inr (inr (inr (s, m, e))) => Finite s m e
              end)).
  by intros [].
Defined.

(** [type SubTypingKey = string | number]: the name of the discriminant
    field. *)
Inductive SubTypingKey :=
| KeyStr (s : string)
| KeyNum (n : Number).

(** [type SubTypeId = string | number]: a discriminant value. *)
Inductive SubTypeId :=
| IdStr (s : string)
| IdNum (n : Number).

#[global] Instance SubTypeId_eq_dec : EqDecision SubTypeId.
Proof. solve_decision. Defined.

#[global] Instance SubTypeId_countable : Countable SubTypeId.
Proof.
  apply (inj_countable'
    (fun i => match i with IdStr s => inl s | IdNum n => inr n end)
    (fun c => match c with inl s => IdStr s | inr n => IdNum n end)).
  by intros [].
Defined.

(** References to records and to [Map] objects. *)
Definition loc := positive.
Definition mapref := positive.

(** What a field of a record can hold, and what a property read can yield.
    [VObj] is a reference to an object of the program, [VBuiltin] one of the
    host's own objects, by name. *)
Inductive JsValue :=
| VUndefined
| VNull
| VBool (b : bool)
| VNum (n : Number)
| VStr (s : string)
| VObj (l : loc)
| VBuiltin (name : string).

#[global] Instance JsValue_eq_dec : EqDecision JsValue.
Proof. solve_decision. Defined.

Definition value_of (id : SubTypeId) : JsValue :=
  match id with
  | IdStr s => VStr s
  | IdNum n => VNum n
  end.

(** A plain record: its own properties by name. *)
Abbreviation Pojo := (gmap string JsValue).
Abbreviation Heap := (gmap loc Pojo).

(** ** Implementation classes and instances *)

(** What a plain record inherits: the properties of [Object.prototype].
    Every other name reads as [undefined] on a record that has no such
    property of its own. *)
Definition Object_prototype (name : string) : JsValue :=
  if bool_decide (name = "constructor") then VBuiltin "Object"
  else if bool_decide (name = "__proto__") then VBuiltin "Object.prototype"
  else if bool_decide
            (name ∈ ["hasOwnProperty"; "isPrototypeOf"; "propertyIsEnumerable";
                     "toLocaleString"; "toString"; "valueOf";
                     "__defineGetter__"; "__defineSetter__";
                     "__lookupGetter__"; "__lookupSetter__"])
       then VBuiltin ("Object.prototype." +:+ name)
  else VUndefined.

(** A method of an implementation, for the methods that only read: the value
    computed from the records and [this.v], as in
    [list() { return this.v.ary; }].  Methods that write, allocate or throw
    are not expressed. *)
Definition Method : Type := Heap -> loc -> JsValue.

(** A class extending [ImplBase]: its static [subtypeId] ([None] when the
    class declares none, which reads as [undefined]) and its prototype
    methods.  The constructor is the one inherited from [ImplBase]. *)
Record ImplClass := mkImplClass {
  className : string;
  subtypeId : option SubTypeId;
  methods : gmap string Method
}.

(** [new ImplClass(obj)]: [ImplBase]'s constructor stores its argument in the
    read-only field [v]. *)
Record Instance := mkInstance {
  inst_class : ImplClass;
  v : loc
}.

Definition invoke (h : Heap) (i : Instance) (name : string) : option JsValue :=
  (fun m : Method => m h (v i)) <$> (methods (inst_class i) !! name).

(** ** Truthiness and key comparison *)

(** [ToBoolean] on the static [subtypeId]. *)
Definition truthy (x : option SubTypeId) : bool :=
  match x with
  | None => false
  | Some (IdStr s) => negb (String.eqb s EmptyString)
  | Some (IdNum NaN) => false
  | Some (IdNum (Zero _)) => false
  | Some (IdNum _) => true
  end.

(** [Map] compares keys with SameValueZero: [-0] is stored and looked up as
    [+0], and [NaN] equals itself. *)
Definition canon (id : SubTypeId) : SubTypeId :=
  match id with
  | IdNum (Zero _) => IdNum (Zero false)
  | _ => id
  end.

(** The key a value can match in a [Map<SubTypeId, _>]: only strings and
    numbers are ever keys. *)
Definition as_key (x : JsValue) : option SubTypeId :=
  match x with
  | VStr s => Some (IdStr s)
  | VNum n => Some (canon (IdNum n))
  | _ => None
  end.

(** The double-quote character. *)
Definition double_quote : Ascii.ascii := Ascii.ascii_of_nat 34.

(** [Number.prototype.toString] is the host's; the library only calls it. *)
Class NumberToString := Number_toString : Number -> string.

(** So is [x.toString()] on an object [x]: a plain record answers
    ["[object Object]"], an array its elements joined, a function its source
    text; the call throws a [TypeError] ([None]) when the object has no
    callable [toString]. *)
Class ObjectToString := {
  Object_toString : Heap -> loc -> option string;
  Builtin_toString : string -> string
}.

(** ** Program state, exceptions and the monad of the embedding *)

(** [ProtocolState.implMap] is a [Map] from protocol keys to [Map] objects.
    The inner maps are objects of their own, held by reference: [maps] is the
    store of those objects.  [heap] holds the records of the application. *)
Record World := mkWorld {
  implMap : gmap Symbol mapref;
  maps : gmap mapref (gmap SubTypeId ImplClass);
  heap : Heap
}.

(** The module is loaded with [implMap = new Map()]. *)
Definition initial (h : Heap) : World := mkWorld ∅ ∅ h.

Inductive Exception :=
| Error (message : string)
| TypeError.

Inductive Completion (A : Type) :=
| Normal (a : A)
| Throw (e : Exception).

Arguments Normal {A} a.
Arguments Throw {A} e.

(** A computation runs on a world and completes normally or abruptly; what it
    wrote before throwing stays written. *)
Definition M (A : Type) : Type := World -> Completion A * World.

#[global] Instance M_ret : MRet M := fun A a w => (Normal a, w).

#[global] Instance M_bind : MBind M := fun A B f m w =>
  match m w with
  | (Normal a, w') => f a w'
  | (Throw e, w') => (Throw e, w')
  end.

Definition throw {A : Type} (e : Exception) : M A := fun w => (Throw e, w).

(** [ProtocolState.implMap.get(k)] *)
Definition implMap_get (k : Symbol) : M (option mapref) :=
  fun w => (Normal (implMap w !! k), w).

(** [ProtocolState.implMap.set(k, r)] *)
Definition implMap_set (k : Symbol) (r : mapref) : M unit :=
  fun w => (Normal tt, mkWorld (<[k := r]> (implMap w)) (maps w) (heap w)).

(** [new Map()]: a fresh, empty [Map] object. *)
Definition new_Map : M mapref :=
  fun w => let r := fresh (dom (maps w)) in
           (Normal r, mkWorld (implMap w) (<[r := ∅]> (maps w)) (heap w)).

(** [r.set(id, impl)]: updates the object [r] in place. *)
Definition Map_set (r : mapref) (id : SubTypeId) (impl : ImplClass) : M unit :=
  fun w => (Normal tt,
            mkWorld (implMap w) (alter (<[canon id := impl]>) r (maps w)) (heap w)).

(** [r.get(x)], for [x] of any type. *)
Definition Map_get (r : mapref) (x : JsValue) : M (option ImplClass) :=
  fun w => (Normal (m ← maps w !! r; id ← as_key x; m !! id), w).

Section Host.
Context `{NumberToString} `{ObjectToString}.

(** A property name is a string; a number used as a name is converted. *)
Definition ToPropertyKey (key : SubTypingKey) : string :=
  match key with
  | KeyStr s => s
  | KeyNum n => Number_toString n
  end.

(** The value of [obj[key]] for a plain record [obj]: its own property of
    that name, or else what it inherits under that name.  (A reference to no
    record at all, which a running program cannot hold, reads as a record
    without own properties.) *)
Definition field (h : Heap) (obj : loc) (key : SubTypingKey) : JsValue :=
  default (Object_prototype (ToPropertyKey key))
          (rec ← h !! obj; rec !! ToPropertyKey key).

(** [obj[key]] *)
Definition prop_get (obj : loc) (key : SubTypingKey) : M JsValue :=
  fun w => (Normal (field (heap w) obj key), w).

(** [x.toString()]: there is no property to read on [undefined] or [null];
    on an object the host decides. *)
Definition toString (x : JsValue) : M string :=
  match x with
  | VUndefined | VNull => throw TypeError
  | VBool b => mret (if b then "true" else "false")
  | VNum n => mret (Number_toString n)
  | VStr s => mret s
  | VObj l => fun w => match Object_toString (heap w) l with
                       | Some s => (Normal s, w)
                       | None => (Throw TypeError, w)
                       end
  | VBuiltin b => mret (Builtin_toString b)
  end.

(** [new ImplClass(obj)] *)
Definition construct (ImplClass : ImplClass) (obj : loc) : M Instance :=
  mret (mkInstance ImplClass obj).

(** ** The library *)

Definition registerImpl
    (protocolKey : Symbol) (subTypeId : SubTypeId) (impl : ImplClass) : M unit :=
  found ← implMap_get protocolKey;
  subtypeMap ← match found with
               | Some m => mret m
               | None =>
                   m ← new_Map;
                   implMap_set protocolKey m;;
                   mret m
               end;
  Map_set subtypeMap subTypeId impl.

Definition subtypeId_missing : string :=
  "Implementation class must have static property "
    +:+ String double_quote ("subtypeId" +:+ String double_quote EmptyString).

Definition generateRegisterImpl (protocolKey : Symbol) : ImplClass -> M unit :=
  fun impl =>
    if negb (truthy (subtypeId impl)) then
      throw (Error subtypeId_missing)
    else
      match subtypeId impl with
      | Some id => registerImpl protocolKey id impl
      | None => throw (Error subtypeId_missing) (* undefined is not truthy *)
      end.

(** What [toString] returns on a discriminant value. *)
Definition string_of (id : SubTypeId) : string :=
  match id with
  | IdStr s => s
  | IdNum n => Number_toString n
  end.

Definition protocol_not_found (protocolKey : Symbol) : string :=
  "Protocol <" +:+ Symbol_toString protocolKey +:+ "> not found".

Definition implementation_not_found (s : string) : string :=
  "Implementation <" +:+ s +:+ "> not found".

Definition getImpl
    (protocolKey : Symbol) (subTypingKey : SubTypingKey) (obj : loc) : M Instance :=
  subtypeId ← prop_get obj subTypingKey;
  subtypeMap ← implMap_get protocolKey;
  match subtypeMap with
  | None => throw (Error (protocol_not_found protocolKey))
  | Some subtypeMap =>
      ImplClass ← Map_get subtypeMap subtypeId;
      match ImplClass with
      | None =>
          s ← toString subtypeId;
          throw (Error (implementation_not_found s))
      | Some ImplClass => construct ImplClass obj
      end
  end.
End Host.

(** ** The registry as a table, and what holds of it between calls *)

(** The [Map] object a protocol key leads to. *)
Definition subtypeMap_of (w : World) (protocolKey : Symbol)
  : option (gmap SubTypeId ImplClass) :=
  r ← implMap w !! protocolKey; maps w !! r.

(** What the two [get]s of [getImpl] find for a protocol key and a
    discriminant value. *)
Definition registered (w : World) (protocolKey : Symbol) (x : JsValue)
  : option ImplClass :=
  m ← subtypeMap_of w protocolKey; id ← as_key x; m !! id.

(** The protocol has at least one implementation in the registry. *)
Definition has_entries (w : World) (protocolKey : Symbol) : Prop :=
  exists x impl, registered w protocolKey x = Some impl.

(** Every protocol key of [implMap] refers to a [Map] object of its own; that
    object is not empty, and its keys are stored the way [Map] stores them. *)
Record registry_ok (w : World) : Prop := mkRegistryOk {
  ok_allocated : forall k r, implMap w !! k = Some r -> is_Some (maps w !! r);
  ok_unshared : forall k1 k2 r, implMap w !! k1 = Some r ->
                  implMap w !! k2 = Some r -> k1 = k2;
  ok_inhabited : forall k m, subtypeMap_of w k = Some m -> m <> ∅;
  ok_canonical : forall k m id, subtypeMap_of w k = Some m ->
                   is_Some (m !! id) -> canon id = id
}.

(** ** Clients *)

(** What a client module can do: call a registration function obtained from
    [generateRegisterImpl], call [getImpl], and write records of its own.
    [RegisterImpl] is the module-private function, called directly. *)
Inductive Call :=
| Register (protocolKey : Symbol) (impl : ImplClass)
| RegisterImpl (protocolKey : Symbol) (subTypeId : SubTypeId) (impl : ImplClass)
| GetImpl (protocolKey : Symbol) (subTypingKey : SubTypingKey) (obj : loc)
| Store (obj : loc) (rec : Pojo).

(** The world a call leaves behind, whether it returned or threw. *)
Definition after `{NumberToString} `{ObjectToString}
    (c : Call) (w : World) : World :=
  match c with
  | Register k impl => snd (generateRegisterImpl k impl w)
  | RegisterImpl k id impl => snd (registerImpl k id impl w)
  | GetImpl k key obj => snd (getImpl k key obj w)
  | Store obj rec => mkWorld (implMap w) (maps w) (<[obj := rec]> (heap w))
  end.

Definition after_all `{NumberToString} `{ObjectToString}
    (cs : list Call) (w : World) : World :=
  foldl (fun w c => after c w) w cs.

(** ** A sample program *)

Module Sample.

(** A host for running the samples: exact on [NaN], the infinities, the
    zeros and the integers below [2^53]; the other numbers, whose decimal
    form takes the host's shortest-digits algorithm, are not used below and
    print as a question mark. *)
Definition toString_sample (n : Number) : string :=
  match n with
  | NaN => "NaN"
  | Infinity false => "Infinity"
  | Infinity true => "-Infinity"
  | Zero _ => "0"
  | Finite s m e =>
      if bool_decide (0 <= e /\ Z.pos m * 2 ^ e < 2 ^ 53)%Z then
        (if s then "-" else "") +:+ pretty (Z.pos m * 2 ^ e)%Z
      else "?"
  end.

#[export] Instance host : NumberToString := toString_sample.

(** The objects of the samples: 7 is the array [[1, 2, 3]], every other
    object a plain record; built-in functions print as the common engines
    print them. *)
Definition object_toString_sample (h : Heap) (l : loc) : option string :=
  if bool_decide (l = 7%positive) then Some "1,2,3" else Some "[object Object]".

Definition builtin_toString_sample (b : string) : string :=
  if bool_decide (b = "Object.prototype") then "[object Object]"
  else if bool_decide (b = "Object") then "function Object() { [native code] }"
  else "function " +:+ String.substring 17 (String.length b - 17) b
         +:+ "() { [native code] }".

#[export] Instance object_host : ObjectToString :=
  {| Object_toString := object_toString_sample;
     Builtin_toString := builtin_toString_sample |}.

Definition pKeyListable : Symbol := mkSymbol 1 "MyApp.Listable".
Definition pKeyPrintable : Symbol := mkSymbol 2 "MyApp.Printable".
Definition sKey : SubTypingKey := KeyStr "type".

(** [list() { return this.v.ary; }] *)
Definition list_ary : Method :=
  fun h this_v => default VUndefined (rec ← h !! this_v; rec !! "ary").

Definition ImplListableForArrayObj : ImplClass :=
  mkImplClass "ImplListableForArrayObj" (Some (IdStr "array-obj"))
              {[ "list" := list_ary ]}.

(** [print()] formats the array into a string and is not a [Method] that
    only reads; the class is here for its name and its [subtypeId]. *)
Definition ImplPrintableForArrayObj : ImplClass :=
  mkImplClass "ImplPrintableForArrayObj" (Some (IdStr "array-obj")) ∅.

(** [list()] builds a new array and is not a [Method] that only reads; the
    class is here for its name and its [subtypeId]. *)
Definition ImplListableForUnregisteredObj : ImplClass :=
  mkImplClass "ImplListableForUnregisteredObj" (Some (IdStr "unregistered-obj"))
              ∅.

(** A second implementation of [Listable] for the same discriminant. *)
Definition ImplListableAgain : ImplClass :=
  mkImplClass "ImplListableAgain" (Some (IdStr "array-obj"))
              {[ "list" := list_ary ]}.

(** Classes that cannot be registered. *)
Definition ImplUndeclared : ImplClass :=
  mkImplClass "ImplUndeclared" None {[ "list" := list_ary ]}.
Definition ImplZero : ImplClass :=
  mkImplClass "ImplZero" (Some (IdNum (Zero false))) {[ "list" := list_ary ]}.
Definition ImplEmpty : ImplClass :=
  mkImplClass "ImplEmpty" (Some (IdStr EmptyString)) {[ "list" := list_ary ]}.

(** Records: 1 is [{type: 'array-obj', ary: <7>}], 2 is
    [{type: 'unregistered-obj'}], 3 has no [type] at all. *)
Definition records : Heap :=
  {[ 1%positive := {[ "type" := VStr "array-obj"; "ary" := VObj 7%positive ]};
     2%positive := {[ "type" := VStr "unregistered-obj" ]};
     3%positive := {[ "ary" := VObj 7%positive ]} ]}.

Definition w0 : World := initial records.

(** After [Listable.registerImpl(ImplListableForArrayObj)]. *)
Definition w1 : World := after (Register pKeyListable ImplListableForArrayObj) w0.

(** After [Printable.registerImpl(ImplPrintableForArrayObj)] as well. *)
Definition w2 : World := after (Register pKeyPrintable ImplPrintableForArrayObj) w1.

End Sample.

(** ** Callers: the protocols and records of the test support *)

(** An object literal: a fresh record with the given properties. *)
Definition new_object (rec : Pojo) : M loc :=
  fun w => let l := fresh (dom (heap w)) in
           (Normal l, mkWorld (implMap w) (maps w) (<[l := rec]> (heap w))).

(** [i.name()]: the method is looked up on the class of the instance and run
    with [this.v]; calling a method that is not there is a [TypeError]. *)
Definition call_method (i : Instance) (name : string) : M JsValue :=
  fun w => match methods (inst_class i) !! name with
           | Some m => (Normal (m (heap w) (v i)), w)
           | None => (Throw TypeError, w)
           end.

(** [test/support/listable.ts] *)
Module Listable.

(** [const [pKey, sKey] = [Symbol('MyApp.Listable'), 'type']] *)
Definition pKey : Symbol := Sample.pKeyListable.
Definition sKey : SubTypingKey := KeyStr "type".

Definition registerImpl `{NumberToString} : ImplClass -> M unit :=
  generateRegisterImpl pKey.

Definition v `{NumberToString} `{ObjectToString} (listable : loc)
  : M Instance :=
  getImpl pKey sKey listable.

Definition list `{NumberToString} `{ObjectToString} (listable : loc)
  : M JsValue :=
  i ← v listable; call_method i "list".

End Listable.

(** [test/support/array-obj.ts]: [create(ary)] is [{type: 'array-obj', ary}];
    the array is held by reference. *)
Module ArrayObj.

Definition create (ary : JsValue) : M loc :=
  new_object {[ "type" := VStr "array-obj"; "ary" := ary ]}.

End ArrayObj.

(** [test/support/unregistered-obj.ts]: [create()] is
    [{type: 'unregistered-obj'}]. *)
Module UnregisteredObj.

Definition create : M loc :=
  new_object {[ "type" := VStr "unregistered-obj" ]}.

End UnregisteredObj.

(** ** More about the registry between calls *)

(** The calls a client can make from outside the module: [registerImpl]
    itself is not exported. *)
Definition is_public (c : Call) : bool :=
  match c with
  | RegisterImpl _ _ _ => false
  | _ => true
  end.

(** Every class in the registry sits under the discriminant value it
    declares, and that value is truthy. *)
Definition keyed_by_own_id (w : World) : Prop :=
  forall k x impl, registered w k x = Some impl ->
    exists id, subtypeId impl = Some id /\ truthy (Some id) = true /\
               as_key x = Some id.

(** Every [Map] object of the store is the [Map] of some protocol key. *)
Definition no_orphans (w : World) : Prop :=
  forall r, is_Some (maps w !! r) -> exists k, implMap w !! k = Some r.

(** * Properties *)

Section Properties.
Context `{NumberToString} `{ObjectToString}.

Implicit Types (w : World) (k : Symbol) (id : SubTypeId) (impl : ImplClass)
               (x : JsValue) (key : SubTypingKey) (obj : loc) (r : mapref).

(** ** Keys *)

Lemma canon_idem id : canon (canon id) = canon id.
Proof. by destruct id as [s|[]]. Qed.

Lemma as_key_value_of id : as_key (value_of id) = Some (canon id).
Proof. by destruct id as [s|[]]. Qed.

Lemma as_key_canon x id : as_key x = Some id -> canon id = id.
Proof.
  destruct x as [| | |n|s| |]; simpl; try discriminate; intros [= <-].
  - apply (canon_idem (IdNum n)).
  - done.
Qed.

(** ** [registerImpl], run by cases *)

(** The protocol key already has its [Map]: that object is updated. *)
Lemma registerImpl_known w k id impl r :
  implMap w !! k = Some r ->
  registerImpl k id impl w =
    (Normal tt,
     mkWorld (implMap w) (alter (<[canon id := impl]>) r (maps w)) (heap w)).
Proof.
  intros E. unfold registerImpl, mbind, M_bind, implMap_get; simpl.
  by rewrite E.
Qed.

(** The protocol key is new: a fresh [Map] is allocated, entered under the
    key and then filled. *)
Lemma registerImpl_new w k id impl :
  implMap w !! k = None ->
  registerImpl k id impl w =
    (Normal tt,
     mkWorld (<[k := fresh (dom (maps w))]> (implMap w))
             (<[fresh (dom (maps w)) := {[canon id := impl]}]> (maps w))
             (heap w)).
Proof.
  intros E. unfold registerImpl, mbind, M_bind, implMap_get; simpl.
  rewrite E; simpl. unfold Map_set; simpl.
  by rewrite alter_insert_eq, insert_empty.
Qed.

Lemma registerImpl_normal w k id impl :
  fst (registerImpl k id impl w) = Normal tt.
Proof.
  destruct (implMap w !! k) as [r|] eqn:E.
  - by rewrite (registerImpl_known _ _ _ _ _ E).
  - by rewrite (registerImpl_new _ _ _ _ E).
Qed.

Lemma registerImpl_heap w k id impl :
  heap (snd (registerImpl k id impl w)) = heap w.
Proof.
  destruct (implMap w !! k) as [r|] eqn:E.
  - by rewrite (registerImpl_known _ _ _ _ _ E).
  - by rewrite (registerImpl_new _ _ _ _ E).
Qed.

Lemma fresh_mapref_unused w k :
  registry_ok w -> implMap w !! k <> Some (fresh (dom (maps w))).
Proof.
  intros Hok E. apply (is_fresh (dom (maps w))), elem_of_dom.
  by apply (ok_allocated _ Hok k).
Qed.

(** The [Map] objects of the registry after [registerImpl]: the one of the
    protocol key has the new entry, the others are as they were. *)
Lemma subtypeMap_of_registerImpl w k id impl k' :
  registry_ok w ->
  subtypeMap_of (snd (registerImpl k id impl w)) k' =
    if decide (k' = k)
    then Some (<[canon id := impl]> (default ∅ (subtypeMap_of w k)))
    else subtypeMap_of w k'.
Proof.
  intros Hok. unfold subtypeMap_of.
  destruct (implMap w !! k) as [r|] eqn:E.
  - rewrite (registerImpl_known _ _ _ _ _ E); simpl.
    destruct (ok_allocated _ Hok _ _ E) as [m Hm].
    case_decide as Hk.
    + subst k'. rewrite E; simpl. by rewrite lookup_alter_eq, Hm.
    + destruct (implMap w !! k') as [r'|] eqn:E'; simpl; [|done].
      rewrite lookup_alter_ne; [done|].
      intros <-. apply Hk. by apply (ok_unshared _ Hok _ _ r).
  - rewrite (registerImpl_new _ _ _ _ E); simpl.
    case_decide as Hk.
    + subst k'. rewrite lookup_insert_eq; simpl.
      by rewrite lookup_insert_eq, insert_empty.
    + rewrite lookup_insert_ne by done.
      destruct (implMap w !! k') as [r'|] eqn:E'; simpl; [|done].
      rewrite lookup_insert_ne; [done|].
      intros <-. by apply (fresh_mapref_unused w k').
Qed.

(** The same, entry by entry. *)
Lemma registered_registerImpl w k id impl k' x :
  registry_ok w ->
  registered (snd (registerImpl k id impl w)) k' x =
    if decide (k' = k /\ as_key x = Some (canon id)) then Some impl
    else registered w k' x.
Proof.
  intros Hok. unfold registered.
  rewrite subtypeMap_of_registerImpl by done.
  destruct (decide (k' = k)) as [->|Hk]; simpl.
  - destruct (as_key x) as [id'|]; simpl.
    + destruct (decide (id' = canon id)) as [->|Hid].
      * rewrite lookup_insert_eq. by rewrite decide_True.
      * rewrite lookup_insert_ne by done.
        rewrite decide_False by (intros [_ [=]]; done).
        by destruct (subtypeMap_of w k).
    + rewrite decide_False by (by intros [_ [=]]).
      by destruct (subtypeMap_of w k).
  - by rewrite decide_False by (by intros [? _]).
Qed.

Lemma registered_registerImpl_same w k id impl :
  registry_ok w ->
  registered (snd (registerImpl k id impl w)) k (value_of id) = Some impl.
Proof.
  intros Hok. rewrite registered_registerImpl by done.
  by rewrite decide_True by (by rewrite as_key_value_of).
Qed.

(** ** The registry stays well formed *)

Lemma registry_ok_initial (h : Heap) : registry_ok (initial h).
Proof.
  split; unfold subtypeMap_of; simpl; intros *; by rewrite lookup_empty.
Qed.

Lemma registry_ok_registerImpl w k id impl :
  registry_ok w -> registry_ok (snd (registerImpl k id impl w)).
Proof.
  intros Hok. split.
  - intros k1 r1 E1.
    pose proof (subtypeMap_of_registerImpl w k id impl k1 Hok) as Hs.
    unfold subtypeMap_of at 1 in Hs. rewrite E1 in Hs; simpl in Hs.
    rewrite Hs. case_decide; [done|].
    destruct (implMap w !! k) as [r|] eqn:E.
    + rewrite (registerImpl_known _ _ _ _ _ E) in E1; simpl in E1.
      unfold subtypeMap_of. rewrite E1; simpl.
      by apply (ok_allocated _ Hok k1).
    + rewrite (registerImpl_new _ _ _ _ E) in E1; simpl in E1.
      rewrite lookup_insert_ne in E1 by done.
      unfold subtypeMap_of. rewrite E1; simpl.
      by apply (ok_allocated _ Hok k1).
  - intros k1 k2 r1.
    destruct (implMap w !! k) as [r|] eqn:E.
    + rewrite (registerImpl_known _ _ _ _ _ E); simpl.
      apply (ok_unshared _ Hok).
    + rewrite (registerImpl_new _ _ _ _ E); simpl.
      destruct (decide (k1 = k)) as [->|Hk1], (decide (k2 = k)) as [->|Hk2];
        try done.
      * rewrite lookup_insert_eq, lookup_insert_ne by done.
        intros [= <-] E2. by destruct (fresh_mapref_unused w k2).
      * rewrite lookup_insert_eq, lookup_insert_ne by done.
        intros E1 [= <-]. by destruct (fresh_mapref_unused w k1).
      * rewrite !lookup_insert_ne by done. apply (ok_unshared _ Hok).
  - intros k1 m. rewrite subtypeMap_of_registerImpl by done.
    case_decide.
    + intros [= <-]. apply insert_non_empty.
    + apply (ok_inhabited _ Hok).
  - intros k1 m id1. rewrite subtypeMap_of_registerImpl by done.
    case_decide as Hk.
    + intros [= <-]. destruct (decide (id1 = canon id)) as [->|Hid].
      * intros _. apply canon_idem.
      * rewrite lookup_insert_ne by done. subst k1.
        destruct (subtypeMap_of w k) as [m|] eqn:Em; simpl.
        -- by apply (ok_canonical _ Hok k).
        -- rewrite lookup_empty. by intros [? ?].
    + apply (ok_canonical _ Hok).
Qed.

(** ** The generated registration function *)

Lemma generateRegisterImpl_rejects w k impl :
  truthy (subtypeId impl) = false ->
  generateRegisterImpl k impl w = (Throw (Error subtypeId_missing), w).
Proof. intros E. unfold generateRegisterImpl. by rewrite E. Qed.

Lemma generateRegisterImpl_accepts w k impl id :
  subtypeId impl = Some id -> truthy (Some id) = true ->
  generateRegisterImpl k impl w = registerImpl k id impl w.
Proof. intros E Ht. unfold generateRegisterImpl. by rewrite E, Ht. Qed.

(** Either way the call amounts to [registerImpl] or to nothing. *)
Lemma generateRegisterImpl_world w k impl :
  snd (generateRegisterImpl k impl w) = w \/
  exists id, subtypeId impl = Some id /\
             snd (generateRegisterImpl k impl w) = snd (registerImpl k id impl w).
Proof.
  destruct (truthy (subtypeId impl)) eqn:Ht.
  - destruct (subtypeId impl) as [id|] eqn:E; [|done].
    right. exists id. split; [done|].
    by rewrite (generateRegisterImpl_accepts _ _ _ id).
  - left. by rewrite generateRegisterImpl_rejects.
Qed.

(** ** [getImpl], run by cases *)

Lemma bind_run {A B : Type} (m : M A) (f : A -> M B) w :
  (m ≫= f) w = match m w with
               | (Normal a, w') => f a w'
               | (Throw e, w') => (Throw e, w')
               end.
Proof. reflexivity. Qed.

Lemma Map_get_registered w k r x :
  implMap w !! k = Some r -> Map_get r x w = (Normal (registered w k x), w).
Proof.
  intros E. unfold Map_get, registered, subtypeMap_of. by rewrite E.
Qed.

Lemma toString_world x w : snd (toString x w) = w.
Proof. destruct x as [| | | | |l|]; try done. simpl. by destruct Object_toString. Qed.

Lemma getImpl_run w k key obj :
  getImpl k key obj w =
    match implMap w !! k with
    | None => (Throw (Error (protocol_not_found k)), w)
    | Some _ =>
        match registered w k (field (heap w) obj key) with
        | Some impl => (Normal (mkInstance impl obj), w)
        | None =>
            match fst (toString (field (heap w) obj key) w) with
            | Normal s => (Throw (Error (implementation_not_found s)), w)
            | Throw e => (Throw e, w)
            end
        end
    end.
Proof.
  unfold getImpl. rewrite bind_run. unfold prop_get at 1.
  rewrite bind_run. unfold implMap_get at 1.
  destruct (implMap w !! k) as [r|] eqn:E; [|done].
  rewrite bind_run, (Map_get_registered _ k) by done.
  destruct (registered w k _) as [impl|]; [done|].
  rewrite bind_run.
  pose proof (toString_world (field (heap w) obj key) w) as Hw.
  destruct (toString _ w) as [[s|e] w']; simpl in *; by subst.
Qed.

Lemma getImpl_world w k key obj : snd (getImpl k key obj w) = w.
Proof.
  rewrite getImpl_run.
  destruct (implMap w !! k); [|done].
  destruct (registered w k _); [done|].
  by destruct (fst (toString _ w)).
Qed.

Lemma getImpl_no_protocol w k key obj :
  implMap w !! k = None ->
  getImpl k key obj w = (Throw (Error (protocol_not_found k)), w).
Proof. intros E. by rewrite getImpl_run, E. Qed.

Lemma getImpl_found w k key obj impl :
  registered w k (field (heap w) obj key) = Some impl ->
  getImpl k key obj w = (Normal (mkInstance impl obj), w).
Proof.
  intros Hr. rewrite getImpl_run, Hr.
  destruct (implMap w !! k) eqn:E; [done|].
  unfold registered, subtypeMap_of in Hr. by rewrite E in Hr.
Qed.

Lemma toString_value_of w id :
  toString (value_of id) w = (Normal (string_of id), w).
Proof. by destruct id. Qed.

(** A protocol key is in [implMap] exactly when it has entries. *)
Lemma has_entries_implMap w k :
  registry_ok w -> has_entries w k <-> is_Some (implMap w !! k).
Proof.
  intros Hok. split.
  - intros (x & impl & Hr). unfold registered, subtypeMap_of in Hr.
    by destruct (implMap w !! k).
  - intros [r E]. destruct (ok_allocated _ Hok _ _ E) as [m Hm].
    assert (subtypeMap_of w k = Some m) as Hs
      by (unfold subtypeMap_of; by rewrite E).
    destruct (map_choose m (ok_inhabited _ Hok _ _ Hs)) as (id & impl & Hid).
    exists (value_of id), impl. unfold registered. rewrite Hs; simpl.
    rewrite as_key_value_of; simpl.
    by rewrite (ok_canonical _ Hok _ _ id Hs).
Qed.

(** ** Clients *)

Lemma registry_ok_after (c : Call) w : registry_ok w -> registry_ok (after c w).
Proof.
  intros Hok. destruct c as [k impl|k id impl|k key obj|obj rec]; simpl.
  - destruct (generateRegisterImpl_world w k impl) as [->|(id & _ & ->)];
      [done|by apply registry_ok_registerImpl].
  - by apply registry_ok_registerImpl.
  - by rewrite getImpl_world.
  - by destruct Hok.
Qed.

Lemma registry_ok_after_all (cs : list Call) w :
  registry_ok w -> registry_ok (after_all cs w).
Proof.
  revert w. induction cs as [|c cs IH]; intros w Hok; simpl; [done|].
  by apply IH, registry_ok_after.
Qed.

(** No call removes a [Map] object from the registry, nor an entry from
    one. *)
Lemma after_keeps (c : Call) w k :
  registry_ok w ->
  (is_Some (subtypeMap_of w k) -> is_Some (subtypeMap_of (after c w) k)) /\
  (forall x, is_Some (registered w k x) -> is_Some (registered (after c w) k x)).
Proof.
  intros Hok.
  assert (forall k' id impl,
    (is_Some (subtypeMap_of w k) ->
     is_Some (subtypeMap_of (snd (registerImpl k' id impl w)) k)) /\
    (forall x, is_Some (registered w k x) ->
     is_Some (registered (snd (registerImpl k' id impl w)) k x))) as Hreg.
  { intros k' id impl. split.
    - rewrite subtypeMap_of_registerImpl by done. by case_decide.
    - intros x. rewrite registered_registerImpl by done. by case_decide. }
  destruct c as [k' impl|k' id impl|k' key obj|obj rec]; simpl.
  - destruct (generateRegisterImpl_world w k' impl) as [->|(id & _ & ->)];
      [done|apply Hreg].
  - apply Hreg.
  - by rewrite getImpl_world.
  - done.
Qed.

Lemma toString_fst x w w' :
  heap w = heap w' -> fst (toString x w) = fst (toString x w').
Proof.
  intros Hh. destruct x as [| | | | |l|]; try done. simpl. rewrite Hh.
  by destruct Object_toString.
Qed.

Lemma implMap_subtypeMap_of w k :
  registry_ok w -> is_Some (implMap w !! k) <-> is_Some (subtypeMap_of w k).
Proof.
  intros Hok. unfold subtypeMap_of. split.
  - intros [r E]. rewrite E; simpl. by apply (ok_allocated _ Hok k).
  - destruct (implMap w !! k); simpl; [by eauto | by intros [? ?]].
Qed.

(** What [getImpl] returns depends on the world only through the [Map] of
    the protocol key and the records. *)
Lemma getImpl_depends w w' k key obj :
  registry_ok w -> registry_ok w' ->
  subtypeMap_of w k = subtypeMap_of w' k -> heap w = heap w' ->
  fst (getImpl k key obj w) = fst (getImpl k key obj w').
Proof.
  intros Hok Hok' Hs Hh. rewrite !getImpl_run.
  pose proof (implMap_subtypeMap_of w k Hok) as Hi.
  pose proof (implMap_subtypeMap_of w' k Hok') as Hi'.
  unfold registered. rewrite <- Hs, <- Hh in *.
  rewrite (toString_fst _ w' w) by done.
  destruct (implMap w !! k) as [r|], (implMap w' !! k) as [r'|].
  - destruct (_ ≫= _); [done|]. by destruct (fst (toString _ w)).
  - destruct Hi as [Hi _]. destruct Hi' as [_ Hi'].
    by destruct Hi', Hi.
  - destruct Hi as [_ Hi]. destruct Hi' as [Hi' _].
    by destruct Hi, Hi'.
  - done.
Qed.

Lemma registerImpl_twice w k id f1 f2 :
  registerImpl k id f2 (snd (registerImpl k id f1 w)) = registerImpl k id f2 w.
Proof.
  destruct (implMap w !! k) as [r|] eqn:E.
  - rewrite (registerImpl_known w _ _ _ _ E); simpl.
    rewrite !(registerImpl_known _ _ _ _ r) by done; simpl.
    rewrite alter_alter_eq. do 2 f_equal. apply alter_ext.
    intros m _. apply insert_insert_eq.
  - rewrite (registerImpl_new w _ _ _ E); simpl.
    rewrite (registerImpl_known _ _ _ _ (fresh (dom (maps w))))
      by (simpl; apply lookup_insert_eq); simpl.
    rewrite (registerImpl_new w _ _ _ E).
    rewrite alter_insert_eq. by rewrite insert_singleton_eq.
Qed.

(** ** Registration and resolution *)

(** C1. Register, then resolve.  For every protocol key, discriminant value
    and implementation class, and every record whose discriminant field
    holds that value: if the class is what the registry holds for the pair,
    [getImpl] returns an instance of that class built on that record; this
    is so right after [registerImpl], and right after a successful call of
    the generated registration function; and the methods of the instance
    are those of the class, applied to the record. *)
Theorem getImpl_roundtrip w k key obj id impl :
  registry_ok w ->
  field (heap w) obj key = value_of id ->
  (registered w k (value_of id) = Some impl ->
     getImpl k key obj w = (Normal (mkInstance impl obj), w)) /\
  (forall w', registerImpl k id impl w = (Normal tt, w') ->
     getImpl k key obj w' = (Normal (mkInstance impl obj), w')) /\
  (subtypeId impl = Some id -> truthy (Some id) = true ->
     exists w', generateRegisterImpl k impl w = (Normal tt, w') /\
                getImpl k key obj w' = (Normal (mkInstance impl obj), w')) /\
  (forall name,
     invoke (heap w) (mkInstance impl obj) name =
       (fun m : Method => m (heap w) obj) <$> methods impl !! name).
Proof.
  intros Hok Hf.
  assert (forall w', registerImpl k id impl w = (Normal tt, w') ->
            getImpl k key obj w' = (Normal (mkInstance impl obj), w')) as Hreg.
  { intros w' Hrun. apply getImpl_found.
    replace w' with (snd (registerImpl k id impl w)) by (by rewrite Hrun).
    rewrite registerImpl_heap, Hf. by apply registered_registerImpl_same. }
  split_and!.
  - intros Hr. apply getImpl_found. by rewrite Hf.
  - exact Hreg.
  - intros E Ht. exists (snd (registerImpl k id impl w)).
    rewrite (generateRegisterImpl_accepts _ _ _ id) by done.
    assert (registerImpl k id impl w = (Normal tt, snd (registerImpl k id impl w)))
      as Hrun by (rewrite <- (registerImpl_normal w k id impl); by destruct registerImpl).
    split; [done|]. by apply Hreg.
  - done.
Qed.

(** C2. The errors of [getImpl].  When the protocol key has no entry at all
    in the registry, the call throws the protocol-not-found error; when it
    has entries but none under the record's discriminant value, a string or
    a number, it throws the implementation-not-found error; the two
    messages always differ, and in both cases the call throws. *)
Theorem getImpl_errors w k key obj :
  registry_ok w ->
  (~ has_entries w k ->
     getImpl k key obj w = (Throw (Error (protocol_not_found k)), w)) /\
  (forall id, has_entries w k ->
     field (heap w) obj key = value_of id ->
     registered w k (value_of id) = None ->
     getImpl k key obj w =
       (Throw (Error (implementation_not_found (string_of id))), w)) /\
  (forall k' s, protocol_not_found k' <> implementation_not_found s).
Proof.
  intros Hok. split_and!.
  - intros Hno. apply getImpl_no_protocol.
    destruct (implMap w !! k) as [r|] eqn:E; [|done].
    destruct Hno. apply has_entries_implMap; [done|]. by rewrite E.
  - intros id Hhas Hf Hr.
    apply (has_entries_implMap _ _ Hok) in Hhas as [r E].
    rewrite getImpl_run, E, Hf, Hr. by rewrite toString_value_of.
  - intros k' s. unfold protocol_not_found, implementation_not_found.
    simpl. discriminate.
Qed.

(** C3. The last registration wins.  Registering [f1] and then [f2] for the
    same protocol key and discriminant value completes normally and leaves
    the world that registering [f2] alone leaves; from then on the pair
    resolves to [f2].  The same holds through the generated registration
    function, for two classes declaring the same discriminant value. *)
Theorem registerImpl_last_wins w k id f1 f2 :
  registry_ok w ->
  registerImpl k id f2 (snd (registerImpl k id f1 w)) =
    (Normal tt, snd (registerImpl k id f2 w)) /\
  (forall key obj,
     field (heap w) obj key = value_of id ->
     fst (getImpl k key obj (snd (registerImpl k id f2 (snd (registerImpl k id f1 w)))))
       = Normal (mkInstance f2 obj)) /\
  (subtypeId f1 = Some id -> subtypeId f2 = Some id ->
     generateRegisterImpl k f2 (snd (generateRegisterImpl k f1 w)) =
       generateRegisterImpl k f2 w).
Proof.
  intros Hok. rewrite registerImpl_twice. split_and!.
  - rewrite <- (registerImpl_normal w k id f2). by destruct registerImpl.
  - intros key obj Hf. rewrite (getImpl_found _ _ _ _ f2); [done|].
    rewrite registerImpl_heap, Hf. by apply registered_registerImpl_same.
  - intros E1 E2. destruct (truthy (Some id)) eqn:Ht.
    + rewrite (generateRegisterImpl_accepts _ _ f1 id) by done.
      rewrite !(generateRegisterImpl_accepts _ _ f2 id) by done.
      apply registerImpl_twice.
    + by rewrite (generateRegisterImpl_rejects w k f1) by (by rewrite E1).
Qed.

(** C4. Protocols do not interfere.  For two distinct protocol keys [kA]
    and [kB] and any discriminant value, registering an implementation
    under [kB] leaves the [Map] of [kA] as it was, so [getImpl] for [kA]
    returns before and after what it returned; and when both keys have an
    implementation registered under the same value, each key resolves to
    its own. *)
Theorem registerImpl_other_protocol w kA kB id implB :
  registry_ok w -> kA <> kB ->
  subtypeMap_of (snd (registerImpl kB id implB w)) kA = subtypeMap_of w kA /\
  (forall key obj,
     fst (getImpl kA key obj (snd (registerImpl kB id implB w))) =
     fst (getImpl kA key obj w)) /\
  (forall implA,
     registered (snd (registerImpl kB id implB (snd (registerImpl kA id implA w))))
                kA (value_of id) = Some implA /\
     registered (snd (registerImpl kB id implB (snd (registerImpl kA id implA w))))
                kB (value_of id) = Some implB).
Proof.
  intros Hok Hne.
  assert (subtypeMap_of (snd (registerImpl kB id implB w)) kA = subtypeMap_of w kA)
    as Hs by (rewrite subtypeMap_of_registerImpl by done; by rewrite decide_False).
  split_and!.
  - exact Hs.
  - intros key obj. apply getImpl_depends; try done.
    + by apply registry_ok_registerImpl.
    + apply registerImpl_heap.
  - intros implA.
    pose proof (registry_ok_registerImpl w kA id implA Hok) as HokA.
    split.
    + rewrite registered_registerImpl by done.
      rewrite decide_False by (by intros [? _]).
      by apply registered_registerImpl_same.
    + by apply registered_registerImpl_same.
Qed.

(** C5. A class that declares no [subtypeId] is rejected at registration:
    the generated function throws the configuration error and leaves the
    world, hence the registry, exactly as it was. *)
Theorem generateRegisterImpl_undeclared w k impl :
  subtypeId impl = None ->
  generateRegisterImpl k impl w = (Throw (Error subtypeId_missing), w).
Proof. intros E. apply generateRegisterImpl_rejects. by rewrite E. Qed.

(** C6. [registerImpl] always completes: for every protocol key (with or
    without a [Map] of its own yet), discriminant value and class, it
    returns normally with no value, the registry then holds the class under
    the pair, and the records are untouched. *)
Theorem registerImpl_total w k id impl :
  registry_ok w ->
  exists w',
    registerImpl k id impl w = (Normal tt, w') /\
    registered w' k (value_of id) = Some impl /\
    heap w' = heap w /\
    registry_ok w'.
Proof.
  intros Hok. exists (snd (registerImpl k id impl w)). split_and!.
  - rewrite <- (registerImpl_normal w k id impl). by destruct registerImpl.
  - by apply registered_registerImpl_same.
  - apply registerImpl_heap.
  - by apply registry_ok_registerImpl.
Qed.

(** C7. The registry only grows.  It starts empty; and whatever calls the
    clients make, in whatever order, a [Map] object that a protocol key has
    and an entry that the registry holds are still there after any further
    calls. *)
Theorem registry_grows (h : Heap) (cs more : list Call) k :
  implMap (initial h) = ∅ /\
  (forall x, registered (initial h) k x = None) /\
  (is_Some (subtypeMap_of (after_all cs (initial h)) k) ->
   is_Some (subtypeMap_of (after_all more (after_all cs (initial h))) k)) /\
  (forall x,
     is_Some (registered (after_all cs (initial h)) k x) ->
     is_Some (registered (after_all more (after_all cs (initial h))) k x)).
Proof.
  split; [done|]. split; [done|].
  pose proof (registry_ok_after_all cs _ (registry_ok_initial h)) as Hok.
  revert Hok. generalize (after_all cs (initial h)) as w.
  induction more as [|c more IH]; intros w Hok; simpl; [done|].
  destruct (after_keeps c w k Hok) as [Hm Hr].
  destruct (IH (after c w) (registry_ok_after c w Hok)) as [IHm IHr].
  split; [tauto|]. intros x Hx. by apply IHr, Hr.
Qed.

(** C8. Resolution only reads.  Whether [getImpl] returns or throws, the
    world after the call is the world before it: registry and records
    alike.  When it returns, the instance holds the reference it was given,
    not a copy; and nothing but the discriminant field of the record is
    looked at: another record with the same discriminant value resolves to
    the same class. *)
Theorem getImpl_read_only w k key obj :
  snd (getImpl k key obj w) = w /\
  (forall i, fst (getImpl k key obj w) = Normal i -> v i = obj) /\
  (forall obj' i,
     field (heap w) obj' key = field (heap w) obj key ->
     fst (getImpl k key obj w) = Normal i ->
     fst (getImpl k key obj' w) = Normal (mkInstance (inst_class i) obj')).
Proof.
  split; [apply getImpl_world|].
  split.
  - intros i. rewrite getImpl_run.
    destruct (implMap w !! k); [|done].
    destruct (registered w k _); [by intros [= <-]|].
    by destruct (fst (toString _ w)).
  - intros obj' i Hf. rewrite !getImpl_run, Hf.
    destruct (implMap w !! k); [|done].
    destruct (registered w k _); [by intros [= <-]|].
    by destruct (fst (toString _ w)).
Qed.

(** C9. The generated registration function rejects every class whose
    [subtypeId] is falsy: the number 0 (of either sign) and the empty
    string are thrown out with the very error of a class that declares no
    [subtypeId], and the world is left as it was, so such a class never
    enters the registry. *)
Theorem generateRegisterImpl_falsy w k impl :
  (truthy (subtypeId impl) = false ->
     generateRegisterImpl k impl w = (Throw (Error subtypeId_missing), w)) /\
  (forall negative, subtypeId impl = Some (IdNum (Zero negative)) ->
     generateRegisterImpl k impl w = (Throw (Error subtypeId_missing), w)) /\
  (subtypeId impl = Some (IdStr EmptyString) ->
     generateRegisterImpl k impl w = (Throw (Error subtypeId_missing), w)) /\
  (forall undeclared, subtypeId undeclared = None ->
     generateRegisterImpl k undeclared w = (Throw (Error subtypeId_missing), w)).
Proof.
  split_and!.
  - apply generateRegisterImpl_rejects.
  - intros s E. apply generateRegisterImpl_rejects. by rewrite E.
  - intros E. apply generateRegisterImpl_rejects. by rewrite E.
  - intros u E. apply generateRegisterImpl_rejects. by rewrite E.
Qed.

(** A record with no property of the name, own or inherited, reads as
    [undefined] there. *)
Lemma field_missing (h : Heap) obj key (rec : Pojo) :
  h !! obj = Some rec ->
  rec !! ToPropertyKey key = None ->
  Object_prototype (ToPropertyKey key) = VUndefined ->
  field h obj key = VUndefined.
Proof. intros Hobj Hrec Hproto. unfold field. by rewrite Hobj; simpl; rewrite Hrec. Qed.

(** C10. A record without the discriminant field.  When the protocol key has
    at least one implementation registered and the record has no field of
    the agreed name at all, so that reading it yields [undefined], [getImpl]
    throws, and what it throws is the [TypeError] of calling [toString] on
    [undefined], not the implementation-not-found error. *)
Theorem getImpl_missing_field w k key obj :
  has_entries w k ->
  field (heap w) obj key = VUndefined ->
  getImpl k key obj w = (Throw TypeError, w) /\
  (forall s, fst (getImpl k key obj w) <> Throw (Error (implementation_not_found s))).
Proof.
  intros (x & impl & Hr) Hf.
  assert (getImpl k key obj w = (Throw TypeError, w)) as Hrun.
  { rewrite getImpl_run, Hf. unfold registered in *.
    destruct (subtypeMap_of w k) as [m|] eqn:Hs; [|done].
    unfold subtypeMap_of in Hs.
    by destruct (implMap w !! k). }
  split; [done|]. intros s. by rewrite Hrun.
Qed.

End Properties.

(** * Further properties of the library *)

Section MoreProperties.
Context `{NumberToString} `{ObjectToString}.

Implicit Types (w : World) (k : Symbol) (id : SubTypeId) (impl : ImplClass)
               (x : JsValue) (key : SubTypingKey) (obj : loc) (r : mapref).

(** ** Helpers *)

Lemma truthy_canon id : truthy (Some id) = true -> canon id = id.
Proof. by destruct id as [s|[]]. Qed.

Lemma registered_heap w (h : Heap) k x :
  registered (mkWorld (implMap w) (maps w) h) k x = registered w k x.
Proof. reflexivity. Qed.

Lemma registerImpl_pair w k id impl :
  registerImpl k id impl w = (Normal tt, snd (registerImpl k id impl w)).
Proof.
  rewrite <- (registerImpl_normal w k id impl). by destruct registerImpl.
Qed.

Lemma generateRegisterImpl_heap w k impl :
  heap (snd (generateRegisterImpl k impl w)) = heap w.
Proof.
  destruct (generateRegisterImpl_world w k impl) as [->|(id & _ & ->)];
    [done|apply registerImpl_heap].
Qed.

Lemma has_entries_subtypeMap_of w k :
  has_entries w k -> is_Some (implMap w !! k).
Proof.
  intros (x & impl & Hr). unfold registered, subtypeMap_of in Hr.
  by destruct (implMap w !! k).
Qed.

Lemma not_found_distinct k s :
  protocol_not_found k <> implementation_not_found s.
Proof. unfold protocol_not_found, implementation_not_found. simpl. discriminate. Qed.

(** ** Registration *)

(** X1. Within one protocol, registering under a discriminant value leaves
    the entries of all other values as they were, and a record that resolved
    before still resolves to the same instance. *)
Theorem registerImpl_same_protocol_frame w k id impl x :
  registry_ok w -> as_key x <> Some (canon id) ->
  registered (snd (registerImpl k id impl w)) k x = registered w k x /\
  (forall key obj i,
     field (heap w) obj key = x ->
     fst (getImpl k key obj w) = Normal i ->
     fst (getImpl k key obj (snd (registerImpl k id impl w))) = Normal i).
Proof.
  intros Hok Hx.
  assert (registered (snd (registerImpl k id impl w)) k x = registered w k x)
    as Hr by (rewrite registered_registerImpl by done;
              by rewrite decide_False by (by intros [_ ?])).
  split; [done|]. intros key obj i Hf.
  rewrite !getImpl_run, registerImpl_heap, Hf, Hr.
  destruct (implMap w !! k) as [r|] eqn:E; [|done].
  destruct (registered w k x) as [impl'|] eqn:Hx'.
  - intros Hi.
    assert (is_Some (implMap (snd (registerImpl k id impl w)) !! k)) as [r' ->];
      [|done].
    rewrite (registerImpl_known _ _ _ _ _ E); simpl. by rewrite E.
  - by destruct (fst (toString x w)).
Qed.

(** X2. Registrations for two different (protocol key, discriminant value)
    pairs commute: in either order the registry holds the same entries and
    [getImpl] returns the same results. *)
Theorem registerImpl_commute w k1 id1 f1 k2 id2 f2 :
  registry_ok w -> (k1, canon id1) <> (k2, canon id2) ->
  (forall k x,
     registered (snd (registerImpl k2 id2 f2 (snd (registerImpl k1 id1 f1 w)))) k x =
     registered (snd (registerImpl k1 id1 f1 (snd (registerImpl k2 id2 f2 w)))) k x) /\
  (forall k key obj,
     fst (getImpl k key obj (snd (registerImpl k2 id2 f2 (snd (registerImpl k1 id1 f1 w))))) =
     fst (getImpl k key obj (snd (registerImpl k1 id1 f1 (snd (registerImpl k2 id2 f2 w)))))).
Proof.
  intros Hok Hne.
  pose proof (registry_ok_registerImpl w k1 id1 f1 Hok) as Hok1.
  pose proof (registry_ok_registerImpl w k2 id2 f2 Hok) as Hok2.
  assert (forall k,
    subtypeMap_of (snd (registerImpl k2 id2 f2 (snd (registerImpl k1 id1 f1 w)))) k =
    subtypeMap_of (snd (registerImpl k1 id1 f1 (snd (registerImpl k2 id2 f2 w)))) k)
    as Hs.
  { intros k. rewrite !subtypeMap_of_registerImpl by done.
    repeat case_decide; simplify_eq/=; try done.
    f_equal. apply insert_insert_ne. intros E. apply Hne. by rewrite E. }
  split.
  - intros k x. unfold registered. by rewrite Hs.
  - intros k key obj. apply getImpl_depends.
    + by apply registry_ok_registerImpl.
    + by apply registry_ok_registerImpl.
    + apply Hs.
    + by rewrite !registerImpl_heap.
Qed.

(** X3. The generated registration function returns exactly when the static
    [subtypeId] of the class is truthy, and then it has done what
    [registerImpl] does with the class under its own [subtypeId]; otherwise
    it throws and writes nothing. *)
Theorem generateRegisterImpl_returns_iff w k impl :
  (fst (generateRegisterImpl k impl w) = Normal tt <->
     truthy (subtypeId impl) = true) /\
  (truthy (subtypeId impl) = true ->
     exists id, subtypeId impl = Some id /\ canon id = id /\
                generateRegisterImpl k impl w = registerImpl k id impl w) /\
  (truthy (subtypeId impl) = false ->
     snd (generateRegisterImpl k impl w) = w).
Proof.
  split_and!.
  - destruct (truthy (subtypeId impl)) eqn:Ht.
    + destruct (subtypeId impl) as [id|] eqn:E; [|done].
      rewrite (generateRegisterImpl_accepts _ _ _ id) by done.
      by rewrite registerImpl_normal.
    + by rewrite generateRegisterImpl_rejects.
  - intros Ht. destruct (subtypeId impl) as [id|] eqn:E; [|done].
    exists id. split_and!; [done|by apply truthy_canon|].
    by rewrite (generateRegisterImpl_accepts _ _ _ id).
  - intros Ht. by rewrite generateRegisterImpl_rejects.
Qed.

(** ** Resolution *)

(** X4. [getImpl] returns an instance exactly when the registry holds a class
    for the protocol key under the value of the record's discriminant field;
    the instance is then of that class and holds the record. *)
Theorem getImpl_returns_iff w k key obj (i : Instance) :
  fst (getImpl k key obj w) = Normal i <->
  registered w k (field (heap w) obj key) = Some (inst_class i) /\ v i = obj.
Proof.
  rewrite getImpl_run. split.
  - destruct (implMap w !! k) as [r|]; [|done].
    destruct (registered w k _) as [impl|]; [by intros [= <-]|].
    by destruct (fst (toString _ w)).
  - intros [Hr <-].
    destruct (implMap w !! k) as [r|] eqn:E.
    + rewrite Hr. by destruct i.
    + unfold registered, subtypeMap_of in Hr. by rewrite E in Hr.
Qed.

(** X5. A discriminant that is neither a string nor a number never resolves,
    whatever the registry holds: [null] ends in a [TypeError] like
    [undefined]; a boolean ends in the implementation-not-found error named
    after it; an object ends in that error named after what its [toString]
    returns, or in the [TypeError] of the [toString] call. *)
Theorem getImpl_non_key_discriminant w k key obj :
  has_entries w k ->
  (field (heap w) obj key = VNull ->
     getImpl k key obj w = (Throw TypeError, w)) /\
  (forall b, field (heap w) obj key = VBool b ->
     getImpl k key obj w =
       (Throw (Error (implementation_not_found (if b then "true" else "false"))), w)) /\
  (forall l, field (heap w) obj key = VObj l ->
     getImpl k key obj w =
       match Object_toString (heap w) l with
       | Some s => (Throw (Error (implementation_not_found s)), w)
       | None => (Throw TypeError, w)
       end) /\
  (forall b, field (heap w) obj key = VBuiltin b ->
     getImpl k key obj w =
       (Throw (Error (implementation_not_found (Builtin_toString b))), w)).
Proof.
  intros [r E]%has_entries_subtypeMap_of.
  assert (forall x, as_key x = None -> registered w k x = None) as Hnone.
  { intros x Hx. unfold registered. rewrite Hx.
    by destruct (subtypeMap_of w k). }
  split_and!.
  - intros Hf. by rewrite getImpl_run, E, Hf, Hnone.
  - intros b Hf. by rewrite getImpl_run, E, Hf, Hnone.
  - intros l Hf. rewrite getImpl_run, E, Hf, Hnone by done. simpl.
    by destruct Object_toString.
  - intros b Hf. by rewrite getImpl_run, E, Hf, Hnone.
Qed.

(** X6. Keys are not coerced.  A record whose discriminant is a number does
    not resolve to a class registered under the string that number prints
    as, and the error then names that very string; likewise a record with a
    string discriminant does not resolve to a class registered under a number
    that prints as it. *)
Theorem getImpl_no_coercion w k key obj n impl :
  registry_ok w ->
  (field (heap w) obj key = VNum n ->
   registered w k (VNum n) = None ->
   fst (getImpl k key obj (snd (registerImpl k (IdStr (Number_toString n)) impl w))) =
     Throw (Error (implementation_not_found (Number_toString n)))) /\
  (field (heap w) obj key = VStr (Number_toString n) ->
   registered w k (VStr (Number_toString n)) = None ->
   fst (getImpl k key obj (snd (registerImpl k (IdNum n) impl w))) =
     Throw (Error (implementation_not_found (Number_toString n)))).
Proof.
  intros Hok.
  assert (forall id x, as_key x <> Some (canon id) ->
            field (heap w) obj key = x -> registered w k x = None ->
            fst (toString x w) = Normal (Number_toString n) ->
            fst (getImpl k key obj (snd (registerImpl k id impl w))) =
              Throw (Error (implementation_not_found (Number_toString n)))) as Hgen.
  { intros id x Hx Hf Hr Hs.
    rewrite getImpl_run, registerImpl_heap, Hf.
    rewrite registered_registerImpl by done.
    rewrite decide_False by (by intros [_ ?]). rewrite Hr.
    assert (is_Some (implMap (snd (registerImpl k id impl w)) !! k)) as [r' ->].
    { apply implMap_subtypeMap_of; [by apply registry_ok_registerImpl|].
      rewrite subtypeMap_of_registerImpl by done. by rewrite decide_True. }
    by rewrite (toString_fst _ _ w (registerImpl_heap w k id impl)), Hs. }
  split.
  - intros Hf Hr.
    apply (Hgen (IdStr (Number_toString n)) (VNum n)); try done.
    simpl. by destruct n.
  - intros Hf Hr.
    apply (Hgen (IdNum n) (VStr (Number_toString n))); try done.
    simpl. by destruct n.
Qed.

(** X7. Once a protocol key has an implementation, [getImpl] never again
    answers that the protocol is not found, whatever the clients call in
    between. *)
Theorem getImpl_protocol_stays_found w k (more : list Call) key obj :
  registry_ok w -> has_entries w k ->
  fst (getImpl k key obj (after_all more w)) <>
    Throw (Error (protocol_not_found k)).
Proof.
  intros Hok Hhas.
  assert (is_Some (implMap (after_all more w) !! k)) as [r E].
  { apply implMap_subtypeMap_of; [by apply registry_ok_after_all|].
    apply has_entries_implMap, implMap_subtypeMap_of in Hhas; try done.
    clear -Hok Hhas. revert w Hok Hhas.
    induction more as [|c more IH]; intros w Hok Hhas; simpl; [done|].
    apply IH; [by apply registry_ok_after|].
    by apply (after_keeps c w k Hok). }
  rewrite getImpl_run, E.
  destruct (registered _ k _); [done|].
  destruct (fst (toString _ _)) as [s|e] eqn:Hs.
  - simpl. intros Heq. apply (not_found_distinct k s). congruence.
  - simpl. destruct (field _ obj key) as [| | | | |l|]; simpl in Hs;
      try discriminate; try (by injection Hs as <-).
    destruct Object_toString; simpl in Hs; [discriminate|by injection Hs as <-].
Qed.

(** ** What the registry looks like in a running program *)

Lemma no_orphans_registerImpl w k id impl :
  registry_ok w -> no_orphans w -> no_orphans (snd (registerImpl k id impl w)).
Proof.
  intros Hok Hno r. destruct (implMap w !! k) as [r0|] eqn:E.
  - rewrite (registerImpl_known _ _ _ _ _ E); simpl.
    intros Hr. apply Hno.
    destruct (decide (r = r0)) as [->|Hne].
    + by apply (ok_allocated _ Hok k).
    + by rewrite lookup_alter_ne in Hr.
  - rewrite (registerImpl_new _ _ _ _ E); simpl.
    destruct (decide (r = fresh (dom (maps w)))) as [->|Hne].
    + intros _. exists k. apply lookup_insert_eq.
    + rewrite lookup_insert_ne by done. intros [k' Hk']%Hno.
      exists k'. rewrite lookup_insert_ne; [done|]. intros <-. congruence.
Qed.

Lemma size_registerImpl w k id impl :
  registry_ok w -> size (implMap w) = size (maps w) ->
  size (implMap (snd (registerImpl k id impl w))) =
  size (maps (snd (registerImpl k id impl w))).
Proof.
  intros Hok Hsz. destruct (implMap w !! k) as [r0|] eqn:E.
  - rewrite (registerImpl_known _ _ _ _ _ E); simpl.
    rewrite Hsz, <- !size_dom. f_equal. symmetry. apply dom_alter_L.
  - rewrite (registerImpl_new _ _ _ _ E); simpl.
    rewrite !map_size_insert_None; [by rewrite Hsz|  | done].
    apply not_elem_of_dom, is_fresh.
Qed.

(** X8. In every world a program can reach from the empty registry, each
    protocol key in [implMap] has a [Map] object of its own, never shared and
    never empty, and the store holds no other [Map] object: there are exactly
    as many [Map] objects as protocol keys. *)
Theorem reachable_registry_shape (h : Heap) (cs : list Call) :
  registry_ok (after_all cs (initial h)) /\
  no_orphans (after_all cs (initial h)) /\
  size (implMap (after_all cs (initial h))) = size (maps (after_all cs (initial h))).
Proof.
  assert (registry_ok (initial h) /\ no_orphans (initial h) /\
          size (implMap (initial h)) = size (maps (initial h))) as Hinit.
  { split_and!; [apply registry_ok_initial| |done].
    intros r. simpl. rewrite lookup_empty. by intros [? ?]. }
  revert Hinit. generalize (initial h) as w.
  induction cs as [|c cs IH]; intros w (Hok & Hno & Hsz); simpl; [done|].
  apply IH. split; [by apply registry_ok_after|].
  destruct c as [k impl|k id impl|k key obj|obj rec]; simpl.
  - destruct (generateRegisterImpl_world w k impl) as [->|(id & _ & ->)];
      [done|]. split; [by apply no_orphans_registerImpl|by apply size_registerImpl].
  - split; [by apply no_orphans_registerImpl|by apply size_registerImpl].
  - by rewrite getImpl_world.
  - done.
Qed.

Lemma generateRegisterImpl_world_truthy w k impl :
  snd (generateRegisterImpl k impl w) = w \/
  exists id, subtypeId impl = Some id /\ truthy (Some id) = true /\
             snd (generateRegisterImpl k impl w) = snd (registerImpl k id impl w).
Proof.
  destruct (truthy (subtypeId impl)) eqn:Ht.
  - destruct (subtypeId impl) as [id|] eqn:E; [|done].
    right. exists id. split_and!; [done..|].
    by rewrite (generateRegisterImpl_accepts _ _ _ id).
  - left. by rewrite generateRegisterImpl_rejects.
Qed.

Lemma keyed_by_own_id_after (c : Call) w :
  registry_ok w -> is_public c = true ->
  keyed_by_own_id w -> keyed_by_own_id (after c w).
Proof.
  intros Hok Hpub Hkey.
  destruct c as [k impl|k id impl|k key obj|obj rec]; simpl; try done.
  - destruct (generateRegisterImpl_world_truthy w k impl)
      as [->|(id & E & Ht & ->)]; [done|].
    intros k' x impl'. rewrite registered_registerImpl by done.
    case_decide as Hd.
    + intros [= <-]. exists id. destruct Hd as [_ ->].
      by rewrite (truthy_canon id).
    + apply Hkey.
  - by rewrite getImpl_world.
Qed.

(** X9. A program that registers only through generated registration
    functions keeps every class under the discriminant value the class
    declares, a truthy one; so the instance [getImpl] returns is of a class
    whose static [subtypeId] is the record's discriminant. *)
Theorem public_registry_keyed_by_own_id (h : Heap) (cs : list Call) :
  forallb is_public cs = true ->
  keyed_by_own_id (after_all cs (initial h)) /\
  (forall k key obj i,
     fst (getImpl k key obj (after_all cs (initial h))) = Normal i ->
     subtypeId (inst_class i) =
       as_key (field (heap (after_all cs (initial h))) obj key) /\
     truthy (subtypeId (inst_class i)) = true).
Proof.
  intros Hpub.
  assert (keyed_by_own_id (after_all cs (initial h))) as Hkey.
  { assert (keyed_by_own_id (initial h)) as Hinit by (by intros k x impl).
    pose proof (registry_ok_initial h) as Hok.
    revert Hok Hinit Hpub. generalize (initial h) as w.
    induction cs as [|c cs IH]; intros w Hok Hkey Hpub; simpl; [done|].
    simpl in Hpub. apply andb_true_iff in Hpub as [Hc Hcs].
    apply IH; [by apply registry_ok_after|by apply keyed_by_own_id_after|done]. }
  split; [done|]. intros k key obj i Hi.
  rewrite getImpl_run in Hi.
  destruct (implMap _ !! k); [|done].
  destruct (registered _ k _) as [impl|] eqn:Hr.
  - injection Hi as <-. simpl.
    destruct (Hkey _ _ _ Hr) as (id & -> & Ht & ->). done.
  - by destruct (fst (toString _ _)).
Qed.

(** ** The protocols of the test support *)

Lemma list_run l w :
  Listable.list l w =
    match getImpl Listable.pKey Listable.sKey l w with
    | (Normal i, w') => call_method i "list" w'
    | (Throw e, w') => (Throw e, w')
    end.
Proof. reflexivity. Qed.

Lemma new_object_run (rec : Pojo) w :
  new_object rec w =
    (Normal (fresh (dom (heap w))),
     mkWorld (implMap w) (maps w) (<[fresh (dom (heap w)) := rec]> (heap w))).
Proof. reflexivity. Qed.

Lemma fresh_loc_unused w : heap w !! fresh (dom (heap w)) = None.
Proof. apply not_elem_of_dom, is_fresh. Qed.

(** X11. Whenever [Listable] holds [ImplListableForArrayObj] under
    ['array-obj'], listing a record just made by [ArrayObj.create(ary)]
    returns [ary] itself; the only trace of the two calls is the new
    record, which takes a place no record had. *)
Theorem list_created_ArrayObj w (ary : JsValue) :
  registered w Listable.pKey (VStr "array-obj")
    = Some Sample.ImplListableForArrayObj ->
  exists l,
    heap w !! l = None /\
    (l ← ArrayObj.create ary; Listable.list l) w =
      (Normal ary,
       mkWorld (implMap w) (maps w)
               (<[l := {[ "type" := VStr "array-obj"; "ary" := ary ]}]> (heap w))).
Proof.
  intros Hr. exists (fresh (dom (heap w))). split; [apply fresh_loc_unused|].
  rewrite bind_run. unfold ArrayObj.create. rewrite new_object_run.
  set (l := fresh (dom (heap w))).
  set (w' := mkWorld _ _ _).
  assert (field (heap w') l Listable.sKey = VStr "array-obj") as Hf.
  { unfold field, w'; simpl. rewrite lookup_insert_eq; simpl.
    by rewrite lookup_insert_eq. }
  rewrite list_run, (getImpl_found _ _ _ _ Sample.ImplListableForArrayObj)
    by (by rewrite Hf).
  unfold call_method; simpl. rewrite lookup_singleton_eq.
  unfold Sample.list_ary; simpl. rewrite lookup_insert_eq; simpl.
  rewrite lookup_insert_ne by done. by rewrite lookup_singleton_eq.
Qed.

(** X12. As long as [Listable] holds nothing under ['unregistered-obj'],
    listing a record made by [UnregisteredObj.create()] throws an [Error]:
    the implementation-not-found one when [Listable] has implementations,
    the protocol-not-found one when it has none.  The record made stays. *)
Theorem list_created_UnregisteredObj w :
  registry_ok w ->
  registered w Listable.pKey (VStr "unregistered-obj") = None ->
  exists l message,
    heap w !! l = None /\
    (l ← UnregisteredObj.create; Listable.list l) w =
      (Throw (Error message),
       mkWorld (implMap w) (maps w)
               (<[l := {[ "type" := VStr "unregistered-obj" ]}]> (heap w))) /\
    (has_entries w Listable.pKey ->
       message = "Implementation <unregistered-obj> not found") /\
    (~ has_entries w Listable.pKey ->
       message = "Protocol <Symbol(MyApp.Listable)> not found").
Proof.
  intros Hok Hr. exists (fresh (dom (heap w))).
  pose proof (has_entries_implMap w Listable.pKey Hok) as Hhas.
  set (l := fresh (dom (heap w))).
  set (w' := mkWorld (implMap w) (maps w)
               (<[l := {[ "type" := VStr "unregistered-obj" ]}]> (heap w))).
  assert (field (heap w') l Listable.sKey = VStr "unregistered-obj") as Hf.
  { unfold field, w'; simpl. rewrite lookup_insert_eq; simpl.
    by rewrite lookup_singleton_eq. }
  assert ((l ← UnregisteredObj.create; Listable.list l) w = Listable.list l w')
    as -> by done.
  rewrite list_run, getImpl_run, Hf.
  change (implMap w') with (implMap w).
  change (registered w' Listable.pKey (VStr "unregistered-obj"))
    with (registered w Listable.pKey (VStr "unregistered-obj")).
  rewrite Hr.
  destruct (implMap w !! Listable.pKey) as [r|] eqn:E.
  - exists "Implementation <unregistered-obj> not found".
    split_and!; [apply fresh_loc_unused|done|done|].
    intros Hno. destruct Hno. apply Hhas. by eauto.
  - exists "Protocol <Symbol(MyApp.Listable)> not found".
    split_and!; [apply fresh_loc_unused|done| |done].
    intros [? ?]%Hhas. done.
Qed.

End MoreProperties.

(** * The sample program, run *)

Section SampleRuns.
Import Sample.

Lemma w0_ok : registry_ok w0.
Proof. apply registry_ok_initial. Qed.

Lemma w1_ok : registry_ok w1.
Proof. apply registry_ok_after, w0_ok. Qed.

Lemma w2_ok : registry_ok w2.
Proof. apply registry_ok_after, w1_ok. Qed.

(** Scenario: the array record resolves under [Listable], and [list()] on the
    instance returns its [ary]. *)
Example list_array_obj :
  exists i, getImpl pKeyListable sKey 1%positive w2 = (Normal i, w2) /\
            inst_class i = ImplListableForArrayObj /\
            invoke (heap w2) i "list" = Some (VObj 7%positive).
Proof. eexists. split; [vm_compute; reflexivity|]. split; vm_compute; reflexivity. Qed.

(** Scenario: a record whose discriminant was never registered. *)
Example list_unregistered_obj :
  getImpl pKeyListable sKey 2%positive w2 =
    (Throw (Error "Implementation <unregistered-obj> not found"), w2).
Proof. vm_compute; reflexivity. Qed.

(** Scenario: the same record under two protocols. *)
Example print_array_obj :
  fst (getImpl pKeyPrintable sKey 1%positive w2) =
    Normal (mkInstance ImplPrintableForArrayObj 1%positive).
Proof. vm_compute; reflexivity. Qed.

Example printable_before_registration :
  getImpl pKeyPrintable sKey 1%positive w1 =
    (Throw (Error "Protocol <Symbol(MyApp.Printable)> not found"), w1).
Proof. vm_compute; reflexivity. Qed.

(** A name the record does not have itself but inherits: the discriminant
    read is the built-in [Object], and the error is named after its source
    text. *)
Example inherited_name_as_key :
  getImpl pKeyListable (KeyStr "constructor") 1%positive w1 =
    (Throw (Error "Implementation <function Object() { [native code] }> not found"),
     w1).
Proof. vm_compute; reflexivity. Qed.

(** An array as the discriminant. *)
Example array_as_discriminant :
  fst (getImpl pKeyListable sKey 4%positive
         (after (Store 4%positive {[ "type" := VObj 7%positive ]}) w1)) =
    Throw (Error "Implementation <1,2,3> not found").
Proof. vm_compute; reflexivity. Qed.

(** ** The theorems at the sample program *)

Lemma getImpl_roundtrip_witness :
  getImpl pKeyListable sKey 1%positive w1 =
    (Normal (mkInstance ImplListableForArrayObj 1%positive), w1).
Proof.
  apply (proj1 (getImpl_roundtrip w1 pKeyListable sKey 1%positive
                  (IdStr "array-obj") ImplListableForArrayObj w1_ok
                  ltac:(vm_compute; reflexivity))).
  vm_compute; reflexivity.
Defined.

Lemma getImpl_errors_witness :
  getImpl pKeyPrintable sKey 1%positive w1 =
    (Throw (Error (protocol_not_found pKeyPrintable)), w1) /\
  getImpl pKeyListable sKey 2%positive w1 =
    (Throw (Error (implementation_not_found "unregistered-obj")), w1).
Proof.
  split.
  - apply (proj1 (getImpl_errors w1 pKeyPrintable sKey 1%positive w1_ok)).
    intros (x & impl & Hr). vm_compute in Hr. discriminate Hr.
  - apply (proj1 (proj2 (getImpl_errors w1 pKeyListable sKey 2%positive w1_ok))
             (IdStr "unregistered-obj")).
    + exists (VStr "array-obj"), ImplListableForArrayObj. vm_compute; reflexivity.
    + vm_compute; reflexivity.
    + vm_compute; reflexivity.
Defined.

Lemma registerImpl_last_wins_witness :
  registerImpl pKeyListable (IdStr "array-obj") ImplListableAgain w1 =
    (Normal tt,
     snd (registerImpl pKeyListable (IdStr "array-obj") ImplListableAgain w0)) /\
  fst (getImpl pKeyListable sKey 1%positive
         (snd (registerImpl pKeyListable (IdStr "array-obj") ImplListableAgain w1)))
    = Normal (mkInstance ImplListableAgain 1%positive).
Proof.
  destruct (registerImpl_last_wins w0 pKeyListable (IdStr "array-obj")
              ImplListableForArrayObj ImplListableAgain w0_ok) as (Hrun & Hget & _).
  split.
  - exact Hrun.
  - apply (Hget sKey 1%positive). vm_compute; reflexivity.
Defined.

Lemma registerImpl_other_protocol_witness :
  subtypeMap_of
    (snd (registerImpl pKeyPrintable (IdStr "array-obj") ImplPrintableForArrayObj w1))
    pKeyListable = subtypeMap_of w1 pKeyListable.
Proof.
  apply (registerImpl_other_protocol w1 pKeyListable pKeyPrintable
           (IdStr "array-obj") ImplPrintableForArrayObj w1_ok).
  discriminate.
Defined.

Lemma generateRegisterImpl_undeclared_witness :
  generateRegisterImpl pKeyListable ImplUndeclared w1 =
    (Throw (Error subtypeId_missing), w1).
Proof. apply generateRegisterImpl_undeclared. reflexivity. Defined.

Lemma registerImpl_total_witness :
  exists w', registerImpl pKeyPrintable (IdStr "array-obj") ImplPrintableForArrayObj w1
               = (Normal tt, w') /\
             registered w' pKeyPrintable (VStr "array-obj")
               = Some ImplPrintableForArrayObj /\
             heap w' = heap w1 /\
             registry_ok w'.
Proof.
  apply (registerImpl_total w1 pKeyPrintable (IdStr "array-obj")
           ImplPrintableForArrayObj w1_ok).
Defined.

Lemma registry_grows_witness :
  is_Some (registered
             (after_all [Register pKeyPrintable ImplPrintableForArrayObj;
                         Register pKeyListable ImplListableAgain;
                         GetImpl pKeyListable sKey 3%positive]
                        (after_all [Register pKeyListable ImplListableForArrayObj]
                                   (initial records)))
             pKeyListable (VStr "array-obj")).
Proof.
  apply (registry_grows records
           [Register pKeyListable ImplListableForArrayObj]
           [Register pKeyPrintable ImplPrintableForArrayObj;
            Register pKeyListable ImplListableAgain;
            GetImpl pKeyListable sKey 3%positive]
           pKeyListable).
  exists ImplListableForArrayObj. vm_compute; reflexivity.
Defined.

Lemma getImpl_read_only_witness :
  snd (getImpl pKeyListable sKey 1%positive w1) = w1 /\
  v (mkInstance ImplListableForArrayObj 1%positive) = 1%positive.
Proof.
  destruct (getImpl_read_only w1 pKeyListable sKey 1%positive) as (Hw & Hv & _).
  split.
  - exact Hw.
  - apply Hv. vm_compute; reflexivity.
Defined.

Lemma generateRegisterImpl_falsy_witness :
  generateRegisterImpl pKeyListable ImplZero w1 =
    (Throw (Error subtypeId_missing), w1) /\
  generateRegisterImpl pKeyListable ImplEmpty w1 =
    (Throw (Error subtypeId_missing), w1).
Proof.
  split.
  - apply (proj1 (proj2 (generateRegisterImpl_falsy w1 pKeyListable ImplZero)) false).
    reflexivity.
  - apply (proj1 (proj2 (proj2 (generateRegisterImpl_falsy w1 pKeyListable ImplEmpty)))).
    reflexivity.
Defined.

Lemma getImpl_missing_field_witness :
  getImpl pKeyListable sKey 3%positive w1 = (Throw TypeError, w1).
Proof.
  apply (getImpl_missing_field w1 pKeyListable sKey 3%positive).
  - exists (VStr "array-obj"), ImplListableForArrayObj. vm_compute; reflexivity.
  - vm_compute; reflexivity.
Defined.

End SampleRuns.

(** ** The further properties at the sample program *)

Section MoreRuns.
Import Sample.

Lemma registerImpl_same_protocol_frame_witness :
  registered (snd (registerImpl pKeyListable (IdStr "unregistered-obj")
                     ImplListableForUnregisteredObj w1))
             pKeyListable (VStr "array-obj")
  = registered w1 pKeyListable (VStr "array-obj").
Proof.
  apply (registerImpl_same_protocol_frame w1 pKeyListable
           (IdStr "unregistered-obj") ImplListableForUnregisteredObj
           (VStr "array-obj") w1_ok).
  discriminate.
Defined.

Lemma registerImpl_commute_witness :
  registered (snd (registerImpl pKeyPrintable (IdStr "array-obj")
                     ImplPrintableForArrayObj
                     (snd (registerImpl pKeyListable (IdStr "array-obj")
                             ImplListableForArrayObj w0))))
             pKeyListable (VStr "array-obj") =
  registered (snd (registerImpl pKeyListable (IdStr "array-obj")
                     ImplListableForArrayObj
                     (snd (registerImpl pKeyPrintable (IdStr "array-obj")
                             ImplPrintableForArrayObj w0))))
             pKeyListable (VStr "array-obj").
Proof.
  apply (proj1 (registerImpl_commute w0 pKeyListable (IdStr "array-obj")
                  ImplListableForArrayObj pKeyPrintable (IdStr "array-obj")
                  ImplPrintableForArrayObj w0_ok ltac:(discriminate))).
Defined.

Lemma generateRegisterImpl_returns_iff_witness :
  fst (generateRegisterImpl pKeyListable ImplListableForArrayObj w0) = Normal tt.
Proof.
  apply (proj1 (generateRegisterImpl_returns_iff w0 pKeyListable
                  ImplListableForArrayObj)).
  reflexivity.
Defined.

Lemma getImpl_returns_iff_witness :
  fst (getImpl pKeyListable sKey 1%positive w1) =
    Normal (mkInstance ImplListableForArrayObj 1%positive).
Proof.
  apply (getImpl_returns_iff w1 pKeyListable sKey 1%positive
           (mkInstance ImplListableForArrayObj 1%positive)).
  split; vm_compute; reflexivity.
Defined.

Lemma getImpl_non_key_discriminant_witness :
  getImpl pKeyListable sKey 4%positive
          (after (Store 4%positive {[ "type" := VNull ]}) w1) =
    (Throw TypeError, after (Store 4%positive {[ "type" := VNull ]}) w1).
Proof.
  apply (getImpl_non_key_discriminant
           (after (Store 4%positive {[ "type" := VNull ]}) w1)
           pKeyListable sKey 4%positive).
  - exists (VStr "array-obj"), ImplListableForArrayObj. vm_compute; reflexivity.
  - vm_compute; reflexivity.
Defined.

Lemma getImpl_no_coercion_witness :
  fst (getImpl pKeyListable sKey 5%positive
         (snd (registerImpl pKeyListable
                 (IdStr (Number_toString (Finite false 1 0))) ImplListableAgain
                 (after (Store 5%positive {[ "type" := VNum (Finite false 1 0) ]}) w1))))
  = Throw (Error (implementation_not_found
                    (Number_toString (Finite false 1 0)))).
Proof.
  apply (proj1 (getImpl_no_coercion
                  (after (Store 5%positive {[ "type" := VNum (Finite false 1 0) ]}) w1)
                  pKeyListable sKey 5%positive (Finite false 1 0) ImplListableAgain
                  (registry_ok_after _ _ w1_ok))).
  - vm_compute; reflexivity.
  - vm_compute; reflexivity.
Defined.

Lemma getImpl_protocol_stays_found_witness :
  fst (getImpl pKeyListable sKey 2%positive
         (after_all [Register pKeyPrintable ImplPrintableForArrayObj;
                     GetImpl pKeyPrintable sKey 3%positive] w1))
  <> Throw (Error (protocol_not_found pKeyListable)).
Proof.
  apply (getImpl_protocol_stays_found w1 pKeyListable
           [Register pKeyPrintable ImplPrintableForArrayObj;
            GetImpl pKeyPrintable sKey 3%positive] sKey 2%positive w1_ok).
  exists (VStr "array-obj"), ImplListableForArrayObj. vm_compute; reflexivity.
Defined.

Lemma public_registry_keyed_by_own_id_witness :
  keyed_by_own_id
    (after_all [Register pKeyListable ImplListableForArrayObj;
                Register pKeyListable ImplZero;
                Register pKeyPrintable ImplPrintableForArrayObj;
                GetImpl pKeyListable sKey 1%positive]
               (initial records)).
Proof.
  apply (public_registry_keyed_by_own_id records
           [Register pKeyListable ImplListableForArrayObj;
            Register pKeyListable ImplZero;
            Register pKeyPrintable ImplPrintableForArrayObj;
            GetImpl pKeyListable sKey 1%positive]).
  reflexivity.
Defined.

Lemma list_created_ArrayObj_witness :
  exists l,
    heap w1 !! l = None /\
    (l ← ArrayObj.create (VObj 7%positive); Listable.list l) w1 =
      (Normal (VObj 7%positive),
       mkWorld (implMap w1) (maps w1)
               (<[l := {[ "type" := VStr "array-obj"; "ary" := VObj 7%positive ]}]>
                  (heap w1))).
Proof.
  apply (list_created_ArrayObj w1 (VObj 7%positive)).
  vm_compute; reflexivity.
Defined.

Lemma list_created_UnregisteredObj_witness :
  exists l message,
    heap w1 !! l = None /\
    (l ← UnregisteredObj.create; Listable.list l) w1 =
      (Throw (Error message),
       mkWorld (implMap w1) (maps w1)
               (<[l := {[ "type" := VStr "unregistered-obj" ]}]> (heap w1))) /\
    (has_entries w1 Listable.pKey ->
       message = "Implementation <unregistered-obj> not found") /\
    (~ has_entries w1 Listable.pKey ->
       message = "Protocol <Symbol(MyApp.Listable)> not found").
Proof.
  apply (list_created_UnregisteredObj w1 w1_ok).
  vm_compute; reflexivity.
Defined.

End MoreRuns.
